(** * internal/wasm_guest.go: the waPC guest bridge

    A shallow embedding of [WasmGuest] (construction, [InvokeWasmOperation],
    [Close]) from [src/internal/wasm_guest.go].

    The bridge is a thin client of the waPC library: every interesting step
    is a call into a collaborator ([ioutil.ReadFile], an engine, a module, an
    instance pool, an instance).  The embedding keeps the Go control flow
    (early returns, named results, the deferred return-to-pool block) and
    records every collaborator call and every log line in an event trace, so
    that statements about "what is called, in which order, how often" are
    statements about lists. *)

From Stdlib Require Import ZArith NArith Strings.Byte.
From stdpp Require Import base relations list strings.

(* ===================================================================== *)
(** ** Go values *)
(* ===================================================================== *)

(** A [[]byte]; [None] is the nil slice. *)
Definition bytes := list byte.
Definition GoBytes := option bytes.

(** [time.Duration] is an int64 count of nanoseconds. *)
Definition Duration := Z.
Definition Millisecond : Duration := 1000000%Z.

(** [context.Context] values the bridge builds. *)
Inductive Context :=
| Background
| TODO
| WithCancel (parent : Context).

(** The sinks named in the [wapc.ModuleConfig] literal. *)
Inductive Sink := PrintlnLogger | os_Stdout | os_Stderr.

Record ModuleConfig := {
  Logger : Sink;
  Stdout : Sink;
  Stderr : Sink
}.

(** How a Go call ends: it returns its results, or it panics. *)
Inductive Outcome (A : Type) :=
| Done (a : A)
| Panicked (v : string).
Arguments Done {A} a.
Arguments Panicked {A} v.

(* ===================================================================== *)
(** ** The collaborators *)
(* ===================================================================== *)

(** Everything [wasm_guest.go] imports and calls.  [World] is whatever the
    collaborators keep between calls (the file system, the engine's heap, the
    pool's ring of instances, the guest's memory).  A collaborator call maps a
    world to an outcome and a new world; like every Go call it may panic.
    Fallible calls return Go's pair of a value and an [error] ([None] is the
    nil error). *)
Class WapcHost := {
  World : Type;
  Err : Type;
  FabricProxy : Type;
  HostCall : Type;
  Engine : Type;
  Module : Type;
  Pool : Type;
  Instance : Type;
  (** [err.Error()], what [%s] prints. *)
  error_string : Err -> string;
  (** [proxy.FabricCall], the callback handed to the engine. *)
  FabricCall : FabricProxy -> HostCall;
  wazero_Engine : Engine;
  ioutil_ReadFile : string -> World -> Outcome (GoBytes * option Err) * World;
  Engine_New : Engine -> Context -> HostCall -> GoBytes -> ModuleConfig ->
               World -> Outcome (Module * option Err) * World;
  wapc_NewPool : Context -> Module -> N ->
                 World -> Outcome (Pool * option Err) * World;
  Pool_Get : Pool -> Duration -> World -> Outcome (Instance * option Err) * World;
  Pool_Return : Pool -> Instance -> World -> Outcome (option Err) * World;
  Pool_Close : Pool -> Context -> World -> Outcome unit * World;
  Instance_Invoke : Instance -> Context -> string -> bytes ->
                    World -> Outcome (GoBytes * option Err) * World;
  (** Whatever [Module.Close] returns is discarded by the bridge. *)
  Module_Close : Module -> Context -> World -> Outcome unit * World
}.

Section Bridge.

Context {H : WapcHost}.

Definition GoError := option Err.

(** What a run of the bridge does that the outside can see. *)
Inductive Event :=
| EvLog (line : string)
| EvReadFile (name : string)
| EvEngineNew (e : Engine) (ctx : Context) (cb : HostCall) (code : GoBytes)
              (cfg : ModuleConfig)
| EvNewPool (ctx : Context) (m : Module) (size : N)
| EvGet (p : Pool) (timeout : Duration)
| EvInvoke (i : Instance) (ctx : Context) (operation : string) (payload : bytes)
| EvReturn (p : Pool) (i : Instance)
| EvPoolClose (p : Pool) (ctx : Context)
| EvModuleClose (m : Module) (ctx : Context).

(* ===================================================================== *)
(** ** A monad for Go function bodies *)
(* ===================================================================== *)

(** State (the world), output (the events emitted) and panics. *)
Definition Go (A : Type) := World -> Outcome A * World * list Event.

Definition ret {A} (a : A) : Go A := fun w => (Done a, w, []).

Definition bind {A B} (m : Go A) (k : A -> Go B) : Go B :=
  fun w =>
    match m w with
    | (Done a, w1, t1) =>
        match k a w1 with
        | (o, w2, t2) => (o, w2, t1 ++ t2)
        end
    | (Panicked v, w1, t1) => (Panicked v, w1, t1)
    end.

Notation "x <- m ;; k" := (bind m (fun x => k))
  (at level 20, m at level 99, k at level 200, only parsing).
Notation "' pat <- m ;; k" := (bind m (fun x => match x with pat => k end))
  (at level 20, pat pattern, m at level 99, k at level 200, only parsing).
Notation "m ;; k" := (bind m (fun _ => k))
  (at level 100, k at level 200, right associativity, only parsing).

(** A collaborator call: the event first, then the call itself. *)
Definition call {A} (e : Event) (f : World -> Outcome A * World) : Go A :=
  fun w => match f w with (o, w1) => (o, w1, [e]) end.

(** [log.Printf]: the formatted line (argument already substituted). *)
Definition log_Printf (line : string) : Go unit :=
  fun w => (Done tt, w, [EvLog line]).

(** [defer]: [body] computes the function's results; [deferred] then runs
    with them in the named result variables and yields their final values.
    When [body] panics the deferred block still runs, with the variables as
    they stood ([stood]), and the panic goes on to the caller afterwards,
    unless the deferred block itself panics. *)
Definition with_defer {R} (stood : R) (deferred : R -> Go R) (body : Go R) : Go R :=
  fun w =>
    match body w with
    | (Done r, w1, t1) =>
        match deferred r w1 with
        | (o, w2, t2) => (o, w2, t1 ++ t2)
        end
    | (Panicked v, w1, t1) =>
        match deferred stood w1 with
        | (Done _, w2, t2) => (Panicked v, w2, t1 ++ t2)
        | (Panicked v', w2, t2) => (Panicked v', w2, t1 ++ t2)
        end
    end.

Definition outcome {A} (r : Outcome A * World * list Event) : Outcome A := r.1.1.
Definition world_after {A} (r : Outcome A * World * list Event) : World := r.1.2.
Definition events {A} (r : Outcome A * World * list Event) : list Event := r.2.

(* ===================================================================== *)
(** ** The bridge *)
(* ===================================================================== *)

(** [type WasmGuest struct]. *)
Record WasmGuest := {
  wapcModule : Module;
  wapcPool : Pool;
  wapcEngine : Engine;
  context : Context
}.

(** [func NewWasmGuest(wasmFile string, proxy *FabricProxy)], returning a
    [*WasmGuest] (here [None] for nil) and an [error].  The Go code allocates
    the struct first and fills it in as the stages succeed; a failing stage
    returns nil and drops the struct, so only the complete struct is ever
    seen, and it is built here where it is returned. *)
Definition NewWasmGuest (wasmFile : string) (proxy : FabricProxy)
  : Go (option WasmGuest * GoError) :=
  let ctx := WithCancel Background in
  let engine := wazero_Engine in
  '(wasmBytes, err) <- call (EvReadFile wasmFile) (ioutil_ReadFile wasmFile) ;;
  match err with
  | Some _ => ret (None, err)
  | None =>
      let cfg := {| Logger := PrintlnLogger; Stdout := os_Stdout; Stderr := os_Stderr |} in
      '(module, err) <- call (EvEngineNew engine ctx (FabricCall proxy) wasmBytes cfg)
                             (Engine_New engine ctx (FabricCall proxy) wasmBytes cfg) ;;
      match err with
      | Some _ => ret (None, err)
      | None =>
          '(pool, err) <- call (EvNewPool Background module 10%N)
                               (wapc_NewPool Background module 10%N) ;;
          match err with
          | Some _ => ret (None, err)
          | None =>
              ret (Some {| wapcModule := module;
                           wapcPool := pool;
                           wapcEngine := engine;
                           context := ctx |}, None)
          end
      end
  end.

(** The deferred block of [InvokeWasmOperation].  It assigns to [err], the
    function's named error result, and leaves [result] alone. *)
Definition return_instance (wg : WasmGuest) (wapcInstance : Instance)
    (named : GoBytes * GoError) : Go (GoBytes * GoError) :=
  let '(result, _) := named in
  log_Printf "[host] Returning waPC Instance" ;;
  err <- call (EvReturn (wapcPool wg) wapcInstance)
              (Pool_Return (wapcPool wg) wapcInstance) ;;
  match err with
  | Some e =>
      log_Printf ("[host] error returning waPC instance: " +:+ error_string e) ;;
      ret (result, err)
  | None => ret (result, err)
  end.

(** [func (wg *WasmGuest) InvokeWasmOperation(operation string, payload []byte)
     (result []byte, err error)] *)
Definition InvokeWasmOperation (wg : WasmGuest) (operation : string) (payload : bytes)
  : Go (GoBytes * GoError) :=
  log_Printf "[host] Getting waPC Instance" ;;
  '(wapcInstance, err) <- call (EvGet (wapcPool wg) (10 * Millisecond)%Z)
                               (Pool_Get (wapcPool wg) (10 * Millisecond)%Z) ;;
  match err with
  | Some e =>
      log_Printf ("[host] error getting waPC instance: " +:+ error_string e) ;;
      ret (None, err)
  | None =>
      with_defer (None, None) (return_instance wg wapcInstance)
        (let ctx := TODO in
         log_Printf ("[host] Invoking operation " +:+ operation) ;;
         '(result, err) <- call (EvInvoke wapcInstance ctx operation payload)
                                (Instance_Invoke wapcInstance ctx operation payload) ;;
         match err with
         | Some e =>
             log_Printf ("[host] error invoking transaction: " +:+ error_string e) ;;
             ret (None, err)
         | None => ret (result, None)
         end)
  end.

(** [func (wg *WasmGuest) Close()] *)
Definition Close (wg : WasmGuest) : Go unit :=
  log_Printf "[host] Closing waPC Pool" ;;
  call (EvPoolClose (wapcPool wg) Background) (Pool_Close (wapcPool wg) Background) ;;
  log_Printf "[host] Closing waPC Module" ;;
  call (EvModuleClose (wapcModule wg) (context wg))
       (Module_Close (wapcModule wg) (context wg)).

(* ===================================================================== *)
(** ** Reading traces *)
(* ===================================================================== *)

Definition is_log (e : Event) : bool :=
  match e with EvLog _ => true | _ => false end.

(** The collaborator calls of a trace, log lines dropped. *)
Definition calls (t : list Event) : list Event :=
  List.filter (fun e => negb (is_log e)) t.

(** The log lines of a trace. *)
Definition logged (t : list Event) : list string :=
  flat_map (fun e => match e with EvLog l => [l] | _ => [] end) t.

(** The instances handed back, with the pool they were handed to. *)
Definition returned (t : list Event) : list (Pool * Instance) :=
  flat_map (fun e => match e with EvReturn p i => [(p, i)] | _ => [] end) t.

(** The guest executions started. *)
Definition invoked (t : list Event) : list (Instance * string * bytes) :=
  flat_map (fun e => match e with EvInvoke i _ o p => [(i, o, p)] | _ => [] end) t.

(** The pools asked for: module and size. *)
Definition pools_requested (t : list Event) : list (Module * N) :=
  flat_map (fun e => match e with EvNewPool _ m n => [(m, n)] | _ => [] end) t.

(** The modules closed. *)
Definition modules_closed (t : list Event) : list Module :=
  flat_map (fun e => match e with EvModuleClose m _ => [m] | _ => [] end) t.

(* ===================================================================== *)
(** ** One invocation as three atomic steps *)
(* ===================================================================== *)

(** Where a caller of [InvokeWasmOperation] stands.  Between the steps other
    callers may run; the steps are the three collaborator calls. *)
Inductive Thread :=
| Calling (operation : string) (payload : bytes)
| Holding (i : Instance) (operation : string) (payload : bytes)
| Returning (i : Instance) (named : GoBytes * GoError) (panicking : option string)
| Finished (r : Outcome (GoBytes * GoError)).

Definition thread_step (wg : WasmGuest) (t : Thread) (w : World) : Thread * World :=
  match t with
  | Calling operation payload =>
      match Pool_Get (wapcPool wg) (10 * Millisecond)%Z w with
      | (Done (i, None), w1) => (Holding i operation payload, w1)
      | (Done (_, Some e), w1) => (Finished (Done (None, Some e)), w1)
      | (Panicked v, w1) => (Finished (Panicked v), w1)
      end
  | Holding i operation payload =>
      match Instance_Invoke i TODO operation payload w with
      | (Done (result, None), w1) => (Returning i (result, None) None, w1)
      | (Done (_, Some e), w1) => (Returning i (None, Some e) None, w1)
      | (Panicked v, w1) => (Returning i (None, None) (Some v), w1)
      end
  | Returning i (result, _) panicking =>
      match Pool_Return (wapcPool wg) i w with
      | (Done err, w1) =>
          (Finished (match panicking with
                     | None => Done (result, err)
                     | Some v => Panicked v
                     end), w1)
      | (Panicked v, w1) => (Finished (Panicked v), w1)
      end
  | Finished r => (Finished r, w)
  end.

(** The instance a caller has been granted and not yet handed back. *)
Definition holds (t : Thread) : option Instance :=
  match t with
  | Holding i _ _ => Some i
  | Returning i _ _ => Some i
  | _ => None
  end.

Fixpoint thread_run (n : nat) (wg : WasmGuest) (t : Thread) (w : World) : Thread * World :=
  match n with
  | O => (t, w)
  | S k => match thread_step wg t w with (t1, w1) => thread_run k wg t1 w1 end
  end.

(** A caller that invokes one request after the other: the outcomes, in
    order, and the world at the end.  A panic is recorded and the caller goes
    on (it recovers), so that what follows a failed call is still observed. *)
Fixpoint invoke_each (wg : WasmGuest) (requests : list (string * bytes)) (w : World)
  : list (Outcome (GoBytes * GoError)) * World :=
  match requests with
  | [] => ([], w)
  | (operation, payload) :: rest =>
      let r := InvokeWasmOperation wg operation payload w in
      match invoke_each wg rest (world_after r) with
      | (os, w1) => (outcome r :: os, w1)
      end
  end.

End Bridge.

Notation "x <- m ;; k" := (bind m (fun x => k))
  (at level 20, m at level 99, k at level 200, only parsing).
Notation "m ;; k" := (bind m (fun _ => k))
  (at level 100, k at level 200, right associativity, only parsing).

Arguments Go {H} A.

(* ===================================================================== *)
(** ** The instance pool and its surroundings, from the specification *)
(* ===================================================================== *)

(** The waPC library is imported, not part of [wasm_guest.go].  To run the
    bridge and to state what the pool contributes, the collaborators are
    modelled here after the specification's Instance Pool (section 4.2), its
    data model (section 3) and its error taxonomy (section 7). *)
Module SpecPool.

(** Modelled from the spec: the error taxonomy of section 7.  [StorageError]
    stands for the failure of the out-of-scope storage read. *)
Inductive PoolErr :=
| StorageError (name : string)
| LoadError
| PoolInitError
| TimeoutError
| ClosedError
| ReleaseError (instance : nat)
| InvocationError (operation : string).

(** Modelled from the spec: the text of an error. *)
Definition describe (e : PoolErr) : string :=
  match e with
  | StorageError name => "open " +:+ name +:+ ": no such file or directory"
  | LoadError => "load error"
  | PoolInitError => "pool init error"
  | TimeoutError => "pool exhausted: timed out"
  | ClosedError => "pool closed"
  | ReleaseError _ => "release of an instance that is not checked out"
  | InvocationError operation => "invocation of " +:+ operation +:+ " failed"
  end.

(** Modelled from the spec: the Instance Pool of section 3: capacity, the
    available instances, the instances checked out, the module it was derived
    from; [closed] and [torn_down] carry the closed state of section 4.2. *)
Record PoolState := {
  capacity : nat;
  derived_from : nat;
  available : list nat;
  checked_out : list nat;
  closed : bool;
  torn_down : list nat
}.

(** Modelled from the spec: [new] instantiates [capacity] instances one after
    the other; [budget] is how many instantiations the engine still grants.
    A single failure fails the whole construction. *)
Fixpoint instantiate_all (budget next capacity : nat) {struct capacity}
  : option (list nat) :=
  match capacity with
  | O => Some []
  | S c =>
      match budget with
      | O => None
      | S b => (fun l => next :: l) <$> instantiate_all b (S next) c
      end
  end.

Definition new (module budget capacity : nat) : PoolState + PoolErr :=
  match instantiate_all budget 0 capacity with
  | Some instances =>
      inl {| capacity := capacity; derived_from := module;
             available := instances; checked_out := [];
             closed := false; torn_down := [] |}
  | None => inr PoolInitError
  end.

(** Modelled from the spec: [acquire].  A closed pool refuses at once.  With
    nothing available the caller waits; what it gets in the end, when nobody
    releases in time, is the timeout failure. *)
Definition acquire (ps : PoolState) : (nat + PoolErr) * PoolState :=
  if closed ps then (inr ClosedError, ps)
  else match available ps with
       | i :: rest =>
           (inl i, {| capacity := capacity ps; derived_from := derived_from ps;
                      available := rest; checked_out := i :: checked_out ps;
                      closed := closed ps; torn_down := torn_down ps |})
       | [] => (inr TimeoutError, ps)
       end.

(** Modelled from the spec: [release].  An instance that is not checked out
    is reported; on a closed pool the release is a teardown. *)
Definition release (i : nat) (ps : PoolState) : option PoolErr * PoolState :=
  if decide (i ∈ checked_out ps) then
    let out := filter (fun j => j ≠ i) (checked_out ps) in
    if closed ps then
      (None, {| capacity := capacity ps; derived_from := derived_from ps;
                available := available ps; checked_out := out;
                closed := closed ps; torn_down := torn_down ps ++ [i] |})
    else
      (None, {| capacity := capacity ps; derived_from := derived_from ps;
                available := available ps ++ [i]; checked_out := out;
                closed := closed ps; torn_down := torn_down ps |})
  else (Some (ReleaseError i), ps).

(** Modelled from the spec: [close] tears down what is available and leaves
    what is checked out to be torn down on release. *)
Definition close (ps : PoolState) : PoolState :=
  {| capacity := capacity ps; derived_from := derived_from ps;
     available := []; checked_out := checked_out ps;
     closed := true; torn_down := torn_down ps ++ available ps |}.

(** Modelled from the spec: a Loaded Module (section 3): the bytecode, the
    bound host callback, the sink configuration, and whether it was closed. *)
Record ModuleState := {
  bytecode : bytes;
  callback : nat;
  sinks : ModuleConfig;
  module_closed : bool
}.

(** Modelled from the spec: a Loaded Module after its close. *)
Definition close_module (m : ModuleState) : ModuleState :=
  {| bytecode := bytecode m; callback := callback m; sinks := sinks m;
     module_closed := true |}.

(** Modelled from the spec: what the collaborators keep between calls.
    [accepts] is the engine's verdict on a bytecode, [guest] what the guest
    program answers to an operation ([None]: unknown operation or failed
    execution), [budget] the instantiations the engine still grants.
    [modules] and [pools] are the engine's and the library's heaps: a handle
    is an index, [None] is the nil handle. *)
Record SWorld := {
  files : list (string * bytes);
  accepts : bytes -> bool;
  guest : string -> bytes -> option bytes;
  budget : nat;
  modules : list ModuleState;
  pools : list PoolState
}.

(** Modelled from the spec: the world with its module heap replaced. *)
Definition with_modules (ms : list ModuleState) (w : SWorld) : SWorld :=
  {| files := files w; accepts := accepts w; guest := guest w;
     budget := budget w; modules := ms; pools := pools w |}.

(** Modelled from the spec: the world with its budget and pool heap replaced. *)
Definition with_pools (b : nat) (ps : list PoolState) (w : SWorld) : SWorld :=
  {| files := files w; accepts := accepts w; guest := guest w;
     budget := b; modules := modules w; pools := ps |}.

(** Modelled from the spec: the storage read, an out-of-scope collaborator. *)
Fixpoint read (name : string) (fs : list (string * bytes)) : option bytes :=
  match fs with
  | [] => None
  | (n, b) :: rest => if decide (n = name) then Some b else read name rest
  end.

(** Modelled from the spec: what Go panics with on a nil handle. *)
Definition nil_dereference : string := "invalid memory address or nil pointer dereference".

(** Modelled from the spec: reading the bytecode from storage. *)
Definition ReadFile (name : string) (w : SWorld)
  : Outcome (GoBytes * option PoolErr) * SWorld :=
  match read name (files w) with
  | Some b => (Done (Some b, None), w)
  | None => (Done (None, Some (StorageError name)), w)
  end.

(** Modelled from the spec: the Engine Handle compiles a bytecode it accepts
    into a Loaded Module and fails with [LoadError] otherwise. *)
Definition EngineNew (_ : unit) (_ : Context) (cb : nat) (code : GoBytes)
    (cfg : ModuleConfig) (w : SWorld)
  : Outcome (option nat * option PoolErr) * SWorld :=
  match code with
  | Some b =>
      if accepts w b then
        (Done (Some (length (modules w)), None),
         with_modules (modules w ++ [{| bytecode := b; callback := cb;
                                        sinks := cfg; module_closed := false |}]) w)
      else (Done (None, Some LoadError), w)
  | None => (Done (None, Some LoadError), w)
  end.

(** Modelled from the spec: [new] on the library heap; a failed construction
    retains nothing (budget and heap are as before). *)
Definition NewPool (_ : Context) (m : option nat) (size : N) (w : SWorld)
  : Outcome (option nat * option PoolErr) * SWorld :=
  match m ≫= (fun k => modules w !! k) with
  | Some _ =>
      match new (default 0 m) (budget w) (N.to_nat size) with
      | inl ps =>
          (Done (Some (length (pools w)), None),
           with_pools (budget w - N.to_nat size) (pools w ++ [ps]) w)
      | inr e => (Done (None, Some e), w)
      end
  | None => (Panicked nil_dereference, w)
  end.

(** Modelled from the spec: [acquire] on the pool a handle names. *)
Definition Get (p : option nat) (_ : Duration) (w : SWorld)
  : Outcome (option nat * option PoolErr) * SWorld :=
  match p ≫= (fun k => pools w !! k) with
  | Some ps =>
      match acquire ps with
      | (inl i, ps1) =>
          (Done (Some i, None), with_pools (budget w) (<[default 0 p := ps1]> (pools w)) w)
      | (inr e, _) => (Done (None, Some e), w)
      end
  | None => (Panicked nil_dereference, w)
  end.

(** Modelled from the spec: [release] on the pool a handle names. *)
Definition Return (p : option nat) (i : option nat) (w : SWorld)
  : Outcome (option PoolErr) * SWorld :=
  match p ≫= (fun k => pools w !! k) with
  | Some ps =>
      match i with
      | Some i =>
          match release i ps with
          | (err, ps1) =>
              (Done err, with_pools (budget w) (<[default 0 p := ps1]> (pools w)) w)
          end
      | None => (Panicked nil_dereference, w)
      end
  | None => (Panicked nil_dereference, w)
  end.

(** Modelled from the spec: [close] on the pool a handle names. *)
Definition PoolClose (p : option nat) (_ : Context) (w : SWorld)
  : Outcome unit * SWorld :=
  match p ≫= (fun k => pools w !! k) with
  | Some ps =>
      (Done tt, with_pools (budget w) (<[default 0 p := close ps]> (pools w)) w)
  | None => (Panicked nil_dereference, w)
  end.

(** Modelled from the spec: an Execution Instance runs a named operation on a
    payload and yields a result or [InvocationError] with the name. *)
Definition Invoke (i : option nat) (_ : Context) (operation : string)
    (payload : bytes) (w : SWorld)
  : Outcome (GoBytes * option PoolErr) * SWorld :=
  match i with
  | Some _ =>
      match guest w operation payload with
      | Some r => (Done (Some r, None), w)
      | None => (Done (None, Some (InvocationError operation)), w)
      end
  | None => (Panicked nil_dereference, w)
  end.

(** Modelled from the spec: the explicit close of a Loaded Module. *)
Definition ModuleClose (m : option nat) (_ : Context) (w : SWorld)
  : Outcome unit * SWorld :=
  match m ≫= (fun k => modules w !! k) with
  | Some ms =>
      (Done tt, with_modules (<[default 0 m := close_module ms]> (modules w)) w)
  | None => (Panicked nil_dereference, w)
  end.

(** The pool a handle names is there and closed. *)
Definition closed_at (p : option nat) (w : SWorld) : Prop :=
  exists k ps, p = Some k /\ pools w !! k = Some ps /\ closed ps = true.

(** Modelled from the spec: the collaborators of the bridge, put together. *)
Definition host : WapcHost := {|
  World := SWorld;
  Err := PoolErr;
  FabricProxy := nat;
  HostCall := nat;
  Engine := unit;
  Module := option nat;
  Pool := option nat;
  Instance := option nat;
  error_string := describe;
  FabricCall := fun proxy => proxy;
  wazero_Engine := tt;
  ioutil_ReadFile := ReadFile;
  Engine_New := EngineNew;
  wapc_NewPool := NewPool;
  Pool_Get := Get;
  Pool_Return := Return;
  Pool_Close := PoolClose;
  Instance_Invoke := Invoke;
  Module_Close := ModuleClose
|}.

End SpecPool.

(** Scripted collaborators: every call answers what the script says and
    leaves the script as it is.  They serve to run the bridge on outcomes
    that need interference from outside the call (a pool that refuses the
    instance it just handed out, a guest that faults). *)
Module Scripted.

Record Script := {
  ReadFileReturns : GoBytes * option string;
  NewReturns : nat * option string;
  NewPoolReturns : nat * option string;
  GetReturns : nat * option string;
  InvokeReturns : Outcome (GoBytes * option string);
  ReturnReturns : option string
}.

Definition answer {A} (f : Script -> A) (s : Script) : Outcome A * Script :=
  (Done (f s), s).

Definition host : WapcHost := {|
  World := Script;
  Err := string;
  FabricProxy := unit;
  HostCall := unit;
  Engine := unit;
  Module := nat;
  Pool := nat;
  Instance := nat;
  error_string := fun e => e;
  FabricCall := fun proxy => proxy;
  wazero_Engine := tt;
  ioutil_ReadFile := fun _ => answer ReadFileReturns;
  Engine_New := fun _ _ _ _ _ => answer NewReturns;
  wapc_NewPool := fun _ _ _ => answer NewPoolReturns;
  Pool_Get := fun _ _ => answer GetReturns;
  Pool_Return := fun _ _ => answer ReturnReturns;
  Pool_Close := fun _ _ => answer (fun _ => tt);
  Instance_Invoke := fun _ _ _ _ s => (InvokeReturns s, s);
  Module_Close := fun _ _ => answer (fun _ => tt)
|}.

End Scripted.

(* ===================================================================== *)
(** ** Concurrent callers *)
(* ===================================================================== *)

(** Several threads of control call [InvokeWasmOperation] on one bridge whose
    collaborators are those of [SpecPool].  A state is the world and the
    callers; a step is one caller's next collaborator call (taken atomically,
    the pool's bookkeeping being guarded by one lock, section 5), the arrival
    of a new caller, or a [Close] of the bridge. *)
Module Concurrent.

#[local] Existing Instance SpecPool.host.

Definition System : Type := SpecPool.SWorld * list Thread.

Inductive step (wg : WasmGuest) : System -> System -> Prop :=
| step_thread w ts n t t1 w1 :
    ts !! n = Some t ->
    thread_step wg t w = (t1, w1) ->
    step wg (w, ts) (w1, <[n := t1]> ts)
| step_arrive w ts operation payload :
    step wg (w, ts) (w, ts ++ [Calling operation payload])
| step_close w ts :
    step wg (w, ts) (world_after (Close wg w), ts).

(** No two callers hold the same instance. *)
Definition exclusive (ts : list Thread) : Prop :=
  forall n m tn tm h,
    n ≠ m -> ts !! n = Some tn -> ts !! m = Some tm ->
    holds tn = Some h -> holds tm = Some h -> False.

(** What a caller holds, the pool has checked out and does not offer. *)
Definition accounted (ps : SpecPool.PoolState) (ts : list Thread) : Prop :=
  forall n t h,
    ts !! n = Some t -> holds t = Some h ->
    exists i, h = Some i /\ i ∈ SpecPool.checked_out ps /\ i ∉ SpecPool.available ps.

(** What the pool's bookkeeping and the callers' holdings have in common. *)
Definition consistent (wg : WasmGuest) (s : System) : Prop :=
  exists k ps,
    wapcPool wg = Some k /\
    SpecPool.pools s.1 !! k = Some ps /\
    NoDup (SpecPool.available ps) /\
    accounted ps s.2 /\
    exclusive s.2.

End Concurrent.

(* ===================================================================== *)
(** ** A chaincode to run *)
(* ===================================================================== *)

(** Concrete worlds on which the bridge is run below: a storage with one
    well-formed and one malformed bytecode file, an engine that accepts a
    bytecode by its magic number, a guest that knows the operation [echo]. *)
Module Scenario.

Import SpecPool.

Definition chaincode : bytes := [x00; x61; x73; x6d; x01; x00; x00; x00].

Definition has_magic (b : bytes) : bool :=
  match b with
  | x00 :: x61 :: x73 :: x6d :: _ => true
  | _ => false
  end.

Definition echo (operation : string) (payload : bytes) : option bytes :=
  if decide (operation = "echo") then Some payload else None.

Definition ping : bytes := [x70; x69; x6e; x67].

(** Before any construction, with room for [n] instances in the engine. *)
Definition fresh (n : nat) : SWorld :=
  {| files := [("chaincode.wasm", chaincode); ("broken.wasm", [x00; x00])];
     accepts := has_magic;
     guest := echo;
     budget := n;
     modules := [];
     pools := [] |}.

(** The bridge [NewWasmGuest] builds in [fresh 10], and the world then. *)
Definition bridge : @WasmGuest host :=
  @Build_WasmGuest host (Some 0) (Some 0) tt (WithCancel Background).

Definition running : SWorld :=
  @world_after host _ (@NewWasmGuest host "chaincode.wasm" 0 (fresh 10)).

(** Every instance of the pool lent out. *)
Definition exhausted : SWorld :=
  with_pools 0 [{| capacity := 10; derived_from := 0;
                   available := []; checked_out := rev (seq 0 10);
                   closed := false; torn_down := [] |}] running.

(** The capacity of the pool a construction left behind for its bridge. *)
Definition constructed_capacity
    (r : Outcome (option (@WasmGuest host) * option PoolErr) * SWorld * list (@Event host))
  : option nat :=
  match r with
  | (Done (Some wg, None), w, _) =>
      capacity <$> (@wapcPool host wg ≫= (fun k => pools w !! k))
  | _ => None
  end.

(** Scripts for the scripted collaborators. *)
Definition pong : bytes := [x70; x6f; x6e; x67].

Definition refusing_pool : Scripted.Script :=
  {| Scripted.ReadFileReturns := (Some chaincode, None);
     Scripted.NewReturns := (1, None);
     Scripted.NewPoolReturns := (1, None);
     Scripted.GetReturns := (7, None);
     Scripted.InvokeReturns := Done (Some pong, None);
     Scripted.ReturnReturns := Some "cannot return instance to full pool" |}.

Definition failing_guest_refusing_pool : Scripted.Script :=
  {| Scripted.ReadFileReturns := (Some chaincode, None);
     Scripted.NewReturns := (1, None);
     Scripted.NewPoolReturns := (1, None);
     Scripted.GetReturns := (7, None);
     Scripted.InvokeReturns := Done (None, Some "call to transfer was unsuccessful");
     Scripted.ReturnReturns := Some "cannot return instance to full pool" |}.

Definition panicking_guest : Scripted.Script :=
  {| Scripted.ReadFileReturns := (Some chaincode, None);
     Scripted.NewReturns := (1, None);
     Scripted.NewPoolReturns := (1, None);
     Scripted.GetReturns := (7, None);
     Scripted.InvokeReturns := Panicked "wasm error: unreachable";
     Scripted.ReturnReturns := None |}.

Definition scripted_bridge : @WasmGuest Scripted.host :=
  @Build_WasmGuest Scripted.host 1 1 tt (WithCancel Background).

End Scenario.

(** Scripted collaborators that may also panic: the pool's calls and the
    closes end the way the script says, returning or panicking. *)
Module Faulty.

Record Script := {
  GetDoes : Outcome (nat * option string);
  InvokeDoes : Outcome (GoBytes * option string);
  ReturnDoes : Outcome (option string);
  PoolCloseDoes : Outcome unit;
  ModuleCloseDoes : Outcome unit
}.

Definition host : WapcHost := {|
  World := Script;
  Err := string;
  FabricProxy := unit;
  HostCall := unit;
  Engine := unit;
  Module := nat;
  Pool := nat;
  Instance := nat;
  error_string := fun e => e;
  FabricCall := fun proxy => proxy;
  wazero_Engine := tt;
  ioutil_ReadFile := fun name s => (Done (None, Some ("open " +:+ name)), s);
  Engine_New := fun _ _ _ _ _ s => (Done (0, Some "not compiled"), s);
  wapc_NewPool := fun _ _ _ s => (Done (0, Some "not built"), s);
  Pool_Get := fun _ _ s => (GetDoes s, s);
  Pool_Return := fun _ _ s => (ReturnDoes s, s);
  Pool_Close := fun _ _ s => (PoolCloseDoes s, s);
  Instance_Invoke := fun _ _ _ _ s => (InvokeDoes s, s);
  Module_Close := fun _ _ s => (ModuleCloseDoes s, s)
|}.

Definition bridge : @WasmGuest host :=
  @Build_WasmGuest host 1 1 tt (WithCancel Background).

(** The pool panics when the instance comes back ([Offer] on a ring that was
    torn down under the caller's feet). *)
Definition panicking_return : Script :=
  {| GetDoes := Done (7, None);
     InvokeDoes := Done (Some [x70; x6f; x6e; x67], None);
     ReturnDoes := Panicked "send on closed channel";
     PoolCloseDoes := Done tt;
     ModuleCloseDoes := Done tt |}.

(** The pool panics on its close. *)
Definition panicking_pool_close : Script :=
  {| GetDoes := Done (7, None);
     InvokeDoes := Done (None, None);
     ReturnDoes := Done None;
     PoolCloseDoes := Panicked "close of closed channel";
     ModuleCloseDoes := Done tt |}.

End Faulty.

(* ===================================================================== *)
(** * What the bridge does, for any collaborators *)
(* ===================================================================== *)

Section BridgeFacts.

Context {H : WapcHost}.

Ltac run :=
  unfold InvokeWasmOperation, NewWasmGuest, Close, with_defer, return_instance,
         bind, call, log_Printf, ret, outcome, world_after, events; simpl.

(** C1. Once the pool has granted an instance, the collaborator calls of
    [InvokeWasmOperation] are, on every exit path (guest result, guest error,
    guest panic; return accepted, refused or panicking): the acquisition, one
    guest execution on the granted instance, one return of that instance to
    the pool it came from, in this order. *)
Theorem InvokeWasmOperation_returns_instance_once
    (wg : WasmGuest) (operation : string) (payload : bytes)
    (w w1 : World) (i : Instance) :
  Pool_Get (wapcPool wg) (10 * Millisecond)%Z w = (Done (i, None), w1) ->
  calls (events (InvokeWasmOperation wg operation payload w)) =
    [EvGet (wapcPool wg) (10 * Millisecond)%Z;
     EvInvoke i TODO operation payload;
     EvReturn (wapcPool wg) i]
  /\ returned (events (InvokeWasmOperation wg operation payload w)) =
       [(wapcPool wg, i)].
Proof.
  intros Hget. run. rewrite Hget.
  destruct (Instance_Invoke i TODO operation payload w1) as [[[r [e|]]|v] w2];
    simpl;
    destruct (Pool_Return (wapcPool wg) i w2) as [[[e'|]|v'] w3]; simpl; auto.
Qed.

(** The three atomic steps of a caller, run one after the other without
    interference, are [InvokeWasmOperation]: same outcome, same world. *)
Lemma thread_run_InvokeWasmOperation
    (wg : WasmGuest) (operation : string) (payload : bytes) (w : World) :
  thread_run 3 wg (Calling operation payload) w =
    (Finished (outcome (InvokeWasmOperation wg operation payload w)),
     world_after (InvokeWasmOperation wg operation payload w)).
Proof.
  run.
  destruct (Pool_Get (wapcPool wg) (10 * Millisecond)%Z w) as [[[i [e|]]|v] w1];
    simpl; auto.
  destruct (Instance_Invoke i TODO operation payload w1) as [[[r [e|]]|v] w2];
    simpl;
    destruct (Pool_Return (wapcPool wg) i w2) as [[[e'|]|v'] w3]; simpl; auto.
Qed.

(** What the caller gets when guest execution and return both come back:
    the result is the guest's (nil on a guest error), the error is the
    pool's answer to the return. *)
Lemma InvokeWasmOperation_outcome
    (wg : WasmGuest) (operation : string) (payload : bytes)
    (w w1 w2 w3 : World) (i : Instance) (result : GoBytes) (err err' : GoError) :
  Pool_Get (wapcPool wg) (10 * Millisecond)%Z w = (Done (i, None), w1) ->
  Instance_Invoke i TODO operation payload w1 = (Done (result, err), w2) ->
  Pool_Return (wapcPool wg) i w2 = (Done err', w3) ->
  outcome (InvokeWasmOperation wg operation payload w) =
    Done (match err with Some _ => None | None => result end, err')
  /\ world_after (InvokeWasmOperation wg operation payload w) = w3.
Proof.
  intros Hget Hinv Hret. run. rewrite Hget. simpl. rewrite Hinv.
  destruct err as [e|]; simpl; rewrite Hret; destruct err' as [e'|]; simpl; auto.
Qed.

(** C10. When the guest execution succeeds and the pool then refuses the
    instance, the caller receives the guest's result (non-nil when the guest's
    is) together with the pool's error, from the same call. *)
Theorem InvokeWasmOperation_result_and_return_error
    (wg : WasmGuest) (operation : string) (payload : bytes)
    (w w1 w2 w3 : World) (i : Instance) (result : GoBytes) (e : Err) :
  Pool_Get (wapcPool wg) (10 * Millisecond)%Z w = (Done (i, None), w1) ->
  Instance_Invoke i TODO operation payload w1 = (Done (result, None), w2) ->
  Pool_Return (wapcPool wg) i w2 = (Done (Some e), w3) ->
  outcome (InvokeWasmOperation wg operation payload w) = Done (result, Some e).
Proof.
  intros Hget Hinv Hret.
  destruct (InvokeWasmOperation_outcome wg operation payload w w1 w2 w3 i
              result None (Some e) Hget Hinv Hret) as [Ho _].
  exact Ho.
Qed.

(** C6. The acquisition is asked for with the fixed timeout of 10 ms
    (10,000,000 ns).  When it fails, the call ends there: the caller gets a
    nil result and the pool's own error, unchanged (so a pool's timeout error
    stays the timeout error), the world is as the pool left it, and the trace
    holds no guest execution and no return. *)
Theorem InvokeWasmOperation_acquisition_failure
    (wg : WasmGuest) (operation : string) (payload : bytes)
    (w w1 : World) (i : Instance) (e : Err) :
  Pool_Get (wapcPool wg) 10000000%Z w = (Done (i, Some e), w1) ->
  InvokeWasmOperation wg operation payload w =
    (Done (None, Some e), w1,
     [EvLog "[host] Getting waPC Instance";
      EvGet (wapcPool wg) 10000000%Z;
      EvLog ("[host] error getting waPC instance: " +:+ error_string e)]).
Proof.
  intros Hget. run. change (10 * Millisecond)%Z with 10000000%Z.
  rewrite Hget. reflexivity.
Qed.

(** C9. [Close] calls the pool's close first and the module's close only
    after the pool's close has come back; no other collaborator is called.
    (If the pool's close panics, the panic leaves [Close] and the module is
    not reached.) *)
Theorem Close_pool_then_module (wg : WasmGuest) (w : World) :
  calls (events (Close wg w)) =
    EvPoolClose (wapcPool wg) Background ::
    match Pool_Close (wapcPool wg) Background w with
    | (Done _, _) => [EvModuleClose (wapcModule wg) (context wg)]
    | (Panicked _, _) => []
    end.
Proof.
  run. destruct (Pool_Close (wapcPool wg) Background w) as [[[]|v] w1]; simpl; auto.
  destruct (Module_Close (wapcModule wg) (context wg) w1) as [[[]|v] w2]; reflexivity.
Qed.

(** C5, as the code has it. [NewWasmGuest] has no capacity parameter.  A
    construction that succeeds has asked for exactly one pool, of the fixed
    size 10, from the module the bridge keeps. *)
Theorem NewWasmGuest_pool_of_ten
    (wasmFile : string) (proxy : FabricProxy) (w : World) (wg : WasmGuest) :
  outcome (NewWasmGuest wasmFile proxy w) = Done (Some wg, None) ->
  pools_requested (events (NewWasmGuest wasmFile proxy w)) = [(wapcModule wg, 10%N)].
Proof.
  run.
  destruct (ioutil_ReadFile wasmFile w) as [[[code [e|]]|v] w1]; simpl; try discriminate.
  destruct (Engine_New _ _ _ code _ w1) as [[[m [e|]]|v] w2]; simpl; try discriminate.
  destruct (wapc_NewPool Background m 10 w2) as [[[p [e|]]|v] w3]; simpl; try discriminate.
  intros [= <-]. reflexivity.
Qed.

(** Whatever happens, [NewWasmGuest] asks for no pool of another size. *)
Lemma NewWasmGuest_no_other_size
    (wasmFile : string) (proxy : FabricProxy) (w : World) :
  Forall (fun r => r.2 = 10%N)
         (pools_requested (events (NewWasmGuest wasmFile proxy w))).
Proof.
  run.
  destruct (ioutil_ReadFile wasmFile w) as [[[code [e|]]|v] w1]; simpl; auto.
  destruct (Engine_New _ _ _ code _ w1) as [[[m [e|]]|v] w2]; simpl; auto.
  destruct (wapc_NewPool Background m 10 w2) as [[[p [e|]]|v] w3]; simpl; auto.
Qed.

(** No path through [NewWasmGuest] closes a module. *)
Lemma NewWasmGuest_closes_no_module
    (wasmFile : string) (proxy : FabricProxy) (w : World) :
  modules_closed (events (NewWasmGuest wasmFile proxy w)) = [].
Proof.
  run.
  destruct (ioutil_ReadFile wasmFile w) as [[[code [e|]]|v] w1]; simpl; auto.
  destruct (Engine_New _ _ _ code _ w1) as [[[m [e|]]|v] w2]; simpl; auto.
  destruct (wapc_NewPool Background m 10 w2) as [[[p [e|]]|v] w3]; simpl; auto.
Qed.

(** A failing stage of the construction fails the construction, with the
    stage's error and a nil bridge. *)
Lemma NewWasmGuest_fails_with_stage
    (wasmFile : string) (proxy : FabricProxy) (w : World) (wg : option WasmGuest)
    (e : Err) :
  outcome (NewWasmGuest wasmFile proxy w) = Done (wg, Some e) -> wg = None.
Proof.
  run.
  destruct (ioutil_ReadFile wasmFile w) as [[[code [e1|]]|v] w1]; simpl;
    [congruence| |discriminate].
  destruct (Engine_New _ _ _ code _ w1) as [[[m [e2|]]|v] w2]; simpl;
    [congruence| |discriminate].
  destruct (wapc_NewPool Background m 10 w2) as [[[p [e3|]]|v] w3]; simpl;
    [congruence|discriminate|discriminate].
Qed.

End BridgeFacts.

(* ===================================================================== *)
(** * The bridge on the specification's pool *)
(* ===================================================================== *)

Section OnSpecPool.

Import SpecPool Scenario.
#[local] Existing Instance SpecPool.host.

Example construction_runs :
  NewWasmGuest (H := host) "chaincode.wasm" 0 (fresh 10) =
    (Done (Some bridge, None), running,
     [EvReadFile "chaincode.wasm";
      EvEngineNew tt (WithCancel Background) 0 (Some chaincode)
        {| Logger := PrintlnLogger; Stdout := os_Stdout; Stderr := os_Stderr |};
      EvNewPool Background (Some 0) 10]).
Proof. reflexivity. Qed.

Example running_pool :
  pools running =
    [{| capacity := 10; derived_from := 0; available := seq 0 10;
        checked_out := []; closed := false; torn_down := [] |}].
Proof. reflexivity. Qed.

Example echo_runs :
  outcome (InvokeWasmOperation bridge "echo" ping running) = Done (Some ping, None)
  /\ (available <$> pools (world_after (InvokeWasmOperation bridge "echo" ping running)))
       = [[1; 2; 3; 4; 5; 6; 7; 8; 9; 0]].
Proof. split; reflexivity. Qed.

End OnSpecPool.

Section PoolFacts.

Import SpecPool.

Lemma instantiate_all_seq (budget next capacity : nat) (l : list nat) :
  instantiate_all budget next capacity = Some l -> l = seq next capacity.
Proof.
  revert budget next l.
  induction capacity as [|c IH]; intros b next l; simpl.
  - intros [= <-]. reflexivity.
  - destruct b as [|b]; [discriminate|].
    destruct (instantiate_all b (S next) c) as [l'|] eqn:E; simpl; [|discriminate].
    intros [= <-]. f_equal. eauto.
Qed.

(** A pool that was built holds its full capacity, all of it available. *)
Lemma new_pool (module budget capacity : nat) (ps : PoolState) :
  new module budget capacity = inl ps ->
  ps = {| capacity := capacity; derived_from := module;
          available := seq 0 capacity; checked_out := [];
          closed := false; torn_down := [] |}.
Proof.
  unfold new.
  destruct (instantiate_all budget 0 capacity) as [l|] eqn:E; [|discriminate].
  apply instantiate_all_seq in E. subst l. congruence.
Qed.

Lemma acquire_closed (ps : PoolState) :
  closed ps = true -> acquire ps = (inr ClosedError, ps).
Proof. unfold acquire. intros ->. reflexivity. Qed.

End PoolFacts.

Section OnePool.

Import SpecPool.
#[local] Existing Instance SpecPool.host.

Ltac run :=
  unfold InvokeWasmOperation, NewWasmGuest, Close, with_defer, return_instance,
         bind, call, log_Printf, ret, outcome, world_after, events; simpl.

(** A [Close] that completes leaves the bridge's pool closed. *)
Lemma Close_closes_pool (wg : WasmGuest) (w : SWorld) :
  outcome (Close wg w) = Done tt ->
  closed_at (wapcPool wg) (world_after (Close wg w)).
Proof.
  run. unfold PoolClose, ModuleClose.
  destruct (wapcPool wg) as [k|]; simpl; [|discriminate].
  destruct (pools w !! k) as [ps|] eqn:Hk; simpl; [|discriminate].
  assert (Hlt : k < length (pools w)) by (eapply lookup_lt_Some; eauto).
  intros _. exists k, (close ps).
  destruct (wapcModule wg) as [m|]; simpl;
    [destruct (modules w !! m) as [ms|]; simpl|];
    (split; [reflexivity|]; split; [|reflexivity]);
    apply list_lookup_insert_eq; assumption.
Qed.

(** On a closed pool an invocation is over after the acquisition: the
    caller gets [ClosedError], nothing has changed. *)
Lemma InvokeWasmOperation_on_closed
    (wg : WasmGuest) (operation : string) (payload : bytes) (w : SWorld) :
  closed_at (wapcPool wg) w ->
  InvokeWasmOperation wg operation payload w =
    (Done (None, Some ClosedError), w,
     [EvLog "[host] Getting waPC Instance";
      EvGet (wapcPool wg) 10000000%Z;
      EvLog "[host] error getting waPC instance: pool closed"]).
Proof.
  intros (k & ps & Hp & Hk & Hc). run. unfold Get. rewrite Hp. simpl.
  rewrite Hk. rewrite (acquire_closed ps Hc). reflexivity.
Qed.

(** One caller after a [Close] that has completed: every one of its
    invocations, however many follow each other, returns with a nil result
    and [ClosedError] and leaves the world as [Close] left it. *)
Lemma invoke_each_after_Close
    (wg : WasmGuest) (w : SWorld) (requests : list (string * bytes)) :
  outcome (Close wg w) = Done tt ->
  invoke_each wg requests (world_after (Close wg w)) =
    (replicate (length requests) (Done (None, Some ClosedError)),
     world_after (Close wg w)).
Proof.
  intros Hclose. apply Close_closes_pool in Hclose.
  generalize dependent (world_after (Close wg w)). intros w1 Hclosed.
  induction requests as [|[operation payload] rest IH]; simpl; [reflexivity|].
  rewrite (InvokeWasmOperation_on_closed wg operation payload w1 Hclosed).
  unfold world_after, outcome; simpl.
  unfold world_after in IH. rewrite IH. reflexivity.
Qed.

Lemma filter_others (i : nat) (l : list nat) :
  i ∉ l -> filter (fun j => j ≠ i) l = l.
Proof.
  induction l as [|x l IH]; intros Hi; [reflexivity|].
  apply not_elem_of_cons in Hi as [Hx Hi].
  rewrite filter_cons_True by congruence. rewrite IH by assumption. reflexivity.
Qed.

(** On an open pool with an instance to offer, an invocation takes the first
    instance offered and leaves it offered again, once, at the end of the
    line; what is checked out is as before. *)
Lemma InvokeWasmOperation_restores_pool
    (wg : WasmGuest) (operation : string) (payload : bytes) (w : SWorld)
    (k i : nat) (rest : list nat) (ps : PoolState) :
  wapcPool wg = Some k ->
  pools w !! k = Some ps ->
  closed ps = false ->
  available ps = i :: rest ->
  i ∉ checked_out ps ->
  world_after (InvokeWasmOperation wg operation payload w) =
    with_pools (budget w)
      (<[k := {| capacity := capacity ps; derived_from := derived_from ps;
                 available := rest ++ [i]; checked_out := checked_out ps;
                 closed := false; torn_down := torn_down ps |}]> (pools w)) w.
Proof.
  intros Hp Hk Hc Hav Hi.
  assert (Hlt : k < length (pools w)) by (eapply lookup_lt_Some; eauto).
  run. unfold Get. rewrite Hp. simpl. rewrite Hk.
  unfold acquire. rewrite Hc, Hav. simpl.
  unfold Invoke.
  destruct (guest w operation payload) as [r|]; simpl;
    unfold Return; simpl;
    rewrite list_lookup_insert_eq by assumption;
    unfold release; simpl;
    rewrite decide_True by left; simpl;
    rewrite filter_cons_False by (intros Hne; apply Hne; reflexivity);
    rewrite (filter_others i _ Hi);
    unfold with_pools; simpl; rewrite list_insert_insert_eq; reflexivity.
Qed.

End OnePool.

Section Exclusivity.

Import SpecPool Concurrent.
#[local] Existing Instance SpecPool.host.

Implicit Types (ts : list Thread) (ps : PoolState) (w : SWorld) (wg : WasmGuest).

(** Replacing a caller by one that holds the same or nothing keeps the
    callers exclusive and accounted for. *)
Lemma exclusive_insert ts n t t1 :
  ts !! n = Some t ->
  (holds t1 = None \/ holds t1 = holds t) ->
  exclusive ts -> exclusive (<[n := t1]> ts).
Proof.
  intros Hn Hh Hex a b ta tb h Hab Ha Hb Hha Hhb.
  apply list_lookup_insert_Some in Ha as [(<- & <- & _)|(Hna & Ha)];
  apply list_lookup_insert_Some in Hb as [(<- & <- & _)|(Hnb & Hb)];
    try congruence.
  - destruct Hh as [Hh|Hh]; [congruence|].
    apply (Hex n b t tb h); congruence.
  - destruct Hh as [Hh|Hh]; [congruence|].
    apply (Hex a n ta t h); congruence.
  - apply (Hex a b ta tb h); assumption.
Qed.

Lemma accounted_insert ps ts n t t1 :
  ts !! n = Some t ->
  (holds t1 = None \/ holds t1 = holds t) ->
  accounted ps ts -> accounted ps (<[n := t1]> ts).
Proof.
  intros Hn Hh Hacc a ta h Ha Hha.
  apply list_lookup_insert_Some in Ha as [(<- & <- & _)|(Hna & Ha)].
  - destruct Hh as [Hh|Hh]; [congruence|].
    apply (Hacc n t h); congruence.
  - apply (Hacc a ta h); assumption.
Qed.

(** A caller's step keeps pool and callers consistent. *)
Lemma thread_step_consistent wg w ts n t t1 w1 :
  ts !! n = Some t ->
  thread_step wg t w = (t1, w1) ->
  consistent wg (w, ts) -> consistent wg (w1, <[n := t1]> ts).
Proof.
  intros Hn Hstep (k & ps & Hp & Hk & Hnd & Hacc & Hex). simpl in *.
  assert (Hlt : k < length (pools w)) by (eapply lookup_lt_Some; eauto).
  destruct t as [operation payload|i operation payload|i [result err] panicking|r];
    simpl in Hstep.
  - (* the acquisition *)
    unfold Get in Hstep. rewrite Hp in Hstep. simpl in Hstep. rewrite Hk in Hstep.
    unfold acquire in Hstep.
    destruct (closed ps) eqn:Hc.
    { injection Hstep as <- <-. exists k, ps. simpl.
      repeat split; auto.
      - eapply accounted_insert; eauto.
      - eapply exclusive_insert; eauto. }
    destruct (available ps) as [|i rest] eqn:Hav.
    { injection Hstep as <- <-. exists k, ps. simpl. rewrite Hav.
      repeat split; auto.
      - eapply accounted_insert; eauto.
      - eapply exclusive_insert; eauto. }
    injection Hstep as <- <-.
    apply NoDup_cons in Hnd as [Hi Hnd].
    eexists k, _. simpl. split; [assumption|].
    split; [apply list_lookup_insert_eq; assumption|]. simpl.
    split; [assumption|]. split.
    + intros a ta h Ha Hha.
      apply list_lookup_insert_Some in Ha as [(<- & <- & _)|(Hna & Ha)].
      * injection Hha as <-. exists i. repeat split; [left|assumption].
      * destruct (Hacc a ta h Ha Hha) as (j & -> & Hj & Hnj).
        exists j. repeat split; [right; assumption|].
        intros Hin. apply Hnj. rewrite Hav. right. assumption.
    + intros a b ta tb h Hab Ha Hb Hha Hhb.
      apply list_lookup_insert_Some in Ha as [(<- & <- & _)|(Hna & Ha)];
      apply list_lookup_insert_Some in Hb as [(<- & <- & _)|(Hnb & Hb)];
        try congruence.
      * injection Hha as <-.
        destruct (Hacc b tb (Some i) Hb Hhb) as (j & [= <-] & _ & Hnj).
        apply Hnj. rewrite Hav. left.
      * injection Hhb as <-.
        destruct (Hacc a ta (Some i) Ha Hha) as (j & [= <-] & _ & Hnj).
        apply Hnj. rewrite Hav. left.
      * apply (Hex a b ta tb h); assumption.
  - (* the guest execution *)
    unfold Invoke in Hstep.
    assert (Hw : w1 = w /\ holds t1 = Some i).
    { destruct i as [i|]; [destruct (guest w operation payload)|];
        injection Hstep as <- <-; auto. }
    destruct Hw as [-> Hh]. exists k, ps. simpl.
    repeat split; auto.
    + eapply accounted_insert; eauto.
    + eapply exclusive_insert; eauto.
  - (* the return *)
    destruct (Hacc n _ i Hn eq_refl) as (j & -> & Hj & Hnj).
    unfold Return in Hstep. rewrite Hp in Hstep. simpl in Hstep. rewrite Hk in Hstep.
    unfold release in Hstep.
    destruct (decide (j ∈ checked_out ps)) as [_|Hno]; [|contradiction].
    assert (Hout : forall a ta h, a ≠ n -> ts !! a = Some ta -> holds ta = Some h ->
              exists i, h = Some i /\ i ≠ j /\ i ∈ checked_out ps /\ i ∉ available ps).
    { intros a ta h Han Ha Hha.
      destruct (Hacc a ta h Ha Hha) as (i & -> & Hi & Hni).
      exists i. repeat split; auto.
      intros ->. eapply (Hex a n); eauto. }
    assert (Hex1 : exclusive (<[n := t1]> ts)).
    { eapply exclusive_insert; eauto. left.
      destruct (closed ps); injection Hstep as <- _; reflexivity. }
    assert (Ht1 : holds t1 = None).
    { destruct (closed ps); injection Hstep as <- _; reflexivity. }
    destruct (closed ps) eqn:Hc; injection Hstep as _ <-;
      eexists k, _; simpl;
      (split; [assumption|]);
      (split; [apply list_lookup_insert_eq; assumption|]); simpl.
    + split; [assumption|]. split; [|assumption].
      intros a ta h Ha Hha.
      apply list_lookup_insert_Some in Ha as [(<- & <- & _)|(Hna & Ha)];
        [congruence|].
      destruct (Hout a ta h (not_eq_sym Hna) Ha Hha) as (i & -> & Hij & Hi & Hni).
      exists i. repeat split; auto.
      apply list_elem_of_filter. auto.
    + split.
      { apply NoDup_app. repeat split; auto.
        - intros x Hx Hxj. apply list_elem_of_singleton in Hxj. subst x. contradiction.
        - apply NoDup_singleton. }
      split; [|assumption].
      intros a ta h Ha Hha.
      apply list_lookup_insert_Some in Ha as [(<- & <- & _)|(Hna & Ha)];
        [congruence|].
      destruct (Hout a ta h (not_eq_sym Hna) Ha Hha) as (i & -> & Hij & Hi & Hni).
      exists i. repeat split; auto.
      * apply list_elem_of_filter. auto.
      * intros Hin. apply elem_of_app in Hin as [Hin|Hin]; [contradiction|].
        apply list_elem_of_singleton in Hin. contradiction.
  - (* nothing left to do *)
    injection Hstep as <- <-. exists k, ps. simpl.
    rewrite list_insert_id by assumption. auto.
Qed.

(** A caller that arrives holds nothing. *)
Lemma arrival_consistent wg w ts operation payload :
  consistent wg (w, ts) -> consistent wg (w, ts ++ [Calling operation payload]).
Proof.
  intros (k & ps & Hp & Hk & Hnd & Hacc & Hex). exists k, ps. simpl in *.
  repeat split; auto.
  - intros a ta h Ha Hha.
    apply lookup_snoc_Some in Ha as [[_ Ha]|[_ <-]]; [|discriminate].
    apply (Hacc a ta h); assumption.
  - intros a b ta tb h Hab Ha Hb Hha Hhb.
    apply lookup_snoc_Some in Ha as [[_ Ha]|[_ <-]]; [|discriminate].
    apply lookup_snoc_Some in Hb as [[_ Hb]|[_ <-]]; [|discriminate].
    apply (Hex a b ta tb h); assumption.
Qed.

(** [Close] empties what the pool offers and leaves the holdings alone. *)
Lemma Close_consistent wg w ts :
  consistent wg (w, ts) -> consistent wg (world_after (Close wg w), ts).
Proof.
  intros (k & ps & Hp & Hk & Hnd & Hacc & Hex). simpl in *.
  assert (Hlt : k < length (pools w)) by (eapply lookup_lt_Some; eauto).
  exists k, (close ps). simpl. split; [assumption|]. split.
  - unfold Close, bind, call, log_Printf, world_after; simpl.
    unfold PoolClose, ModuleClose. rewrite Hp. simpl. rewrite Hk. simpl.
    destruct (wapcModule wg) as [m|]; simpl;
      [destruct (modules w !! m) as [ms|]; simpl|];
      apply list_lookup_insert_eq; assumption.
  - split; [apply NoDup_nil_2|]. split; [|assumption].
    intros a ta h Ha Hha.
    destruct (Hacc a ta h Ha Hha) as (i & -> & Hi & _).
    exists i. repeat split; [assumption|]. simpl. apply not_elem_of_nil.
Qed.

Lemma step_consistent wg (s s1 : System) :
  step wg s s1 -> consistent wg s -> consistent wg s1.
Proof.
  intros Hstep. destruct Hstep as [w ts n t t1 w1 Hn Ht|w ts operation payload|w ts].
  - eapply thread_step_consistent; eassumption.
  - apply arrival_consistent.
  - apply Close_consistent.
Qed.

Lemma reachable_consistent wg (s s1 : System) :
  rtc (step wg) s s1 -> consistent wg s -> consistent wg s1.
Proof.
  induction 1 as [|s s1 s2 Hstep _ IH]; [auto|].
  intros Hs. apply IH. eapply step_consistent; eassumption.
Qed.

(** A bridge that was constructed has a pool of ten instances, all of them
    available and none lent out. *)
Lemma NewWasmGuest_pool wasmFile (proxy : nat) w0 wg w1 evs :
  NewWasmGuest wasmFile proxy w0 = (Done (Some wg, None), w1, evs) ->
  exists k m,
    wapcPool wg = Some k /\
    pools w1 !! k =
      Some {| capacity := 10; derived_from := m; available := seq 0 10;
              checked_out := []; closed := false; torn_down := [] |}.
Proof.
  unfold NewWasmGuest, bind, call, ret; simpl.
  unfold ReadFile, EngineNew, NewPool.
  destruct (read wasmFile (files w0)) as [code|]; simpl; [|discriminate].
  destruct (accepts w0 code); simpl; [|discriminate].
  rewrite list_lookup_middle by reflexivity. simpl.
  destruct (new _ _ _) as [ps|e] eqn:Hnew; simpl; [|discriminate].
  intros [= <- <- _]. simpl.
  apply new_pool in Hnew. subst ps.
  eexists _, _. split; [reflexivity|].
  apply list_lookup_middle. reflexivity.
Qed.

Lemma NewWasmGuest_consistent wasmFile (proxy : nat) w0 wg w1 evs :
  NewWasmGuest wasmFile proxy w0 = (Done (Some wg, None), w1, evs) ->
  consistent wg (w1, []).
Proof.
  intros Hnew. apply NewWasmGuest_pool in Hnew as (k & m & Hp & Hk).
  eexists k, _. simpl. split; [exact Hp|]. split; [exact Hk|]. simpl.
  split; [apply (NoDup_seq 0 10)|].
  split; intros a; intros; discriminate.
Qed.

(** C8. On a bridge that was constructed, whatever callers arrive and
    however their acquisitions, guest executions and returns (and any
    [Close]) interleave, two different callers never hold the same instance
    between their acquisition and their return. *)
Theorem callers_never_share_an_instance
    (wasmFile : string) (proxy : nat) (w0 w1 w : SWorld) (wg : WasmGuest)
    (evs : list Event) (ts : list Thread) :
  NewWasmGuest wasmFile proxy w0 = (Done (Some wg, None), w1, evs) ->
  rtc (step wg) (w1, []) (w, ts) ->
  exclusive ts.
Proof.
  intros Hnew Hreach.
  apply NewWasmGuest_consistent in Hnew.
  destruct (reachable_consistent wg _ _ Hreach Hnew) as (k & ps & _ & _ & _ & _ & Hex).
  exact Hex.
Qed.

End Exclusivity.

Section ClosedForGood.

Import SpecPool Concurrent.
#[local] Existing Instance SpecPool.host.

(** The update of a pool that is there keeps a pool that is closed closed,
    as long as the update is closed too. *)
Lemma closed_at_insert (p : option nat) (k : nat) (ps1 : PoolState) (w : SWorld) :
  p = Some k -> k < length (pools w) -> closed ps1 = true ->
  closed_at p (with_pools (budget w) (<[k := ps1]> (pools w)) w).
Proof.
  intros -> Hlt Hc. exists k, ps1. repeat split; auto.
  apply list_lookup_insert_eq. assumption.
Qed.

Lemma release_keeps_closed (i : nat) (ps : PoolState) :
  closed ps = true -> closed (release i ps).2 = true.
Proof.
  intros Hc. unfold release.
  destruct (decide (i ∈ checked_out ps)); [rewrite Hc|]; simpl; auto.
Qed.

(** No step of any caller reopens a closed pool. *)
Lemma thread_step_keeps_closed (wg : WasmGuest) (t t1 : Thread) (w w1 : SWorld) :
  thread_step wg t w = (t1, w1) ->
  closed_at (wapcPool wg) w -> closed_at (wapcPool wg) w1.
Proof.
  intros Hstep Hcl. pose proof Hcl as (k & ps & Hp & Hk & Hc).
  assert (Hlt : k < length (pools w)) by (eapply lookup_lt_Some; eauto).
  destruct t as [operation payload|i operation payload|i [result err] panicking|r];
    simpl in Hstep.
  - unfold Get in Hstep. rewrite Hp in Hstep. simpl in Hstep. rewrite Hk in Hstep.
    rewrite (acquire_closed ps Hc) in Hstep. injection Hstep as _ <-. assumption.
  - unfold Invoke in Hstep.
    destruct i as [i|]; [destruct (guest w operation payload)|];
      injection Hstep as _ <-; assumption.
  - unfold Return in Hstep. rewrite Hp in Hstep. simpl in Hstep. rewrite Hk in Hstep.
    destruct i as [i|]; [|injection Hstep as _ <-; assumption].
    pose proof (release_keeps_closed i ps Hc) as Hc1.
    destruct (release i ps) as [err1 ps1]. injection Hstep as _ <-.
    apply closed_at_insert; assumption.
  - injection Hstep as _ <-. assumption.
Qed.

Lemma Close_keeps_closed (wg : WasmGuest) (w : SWorld) :
  closed_at (wapcPool wg) w -> closed_at (wapcPool wg) (world_after (Close wg w)).
Proof.
  intros (k & ps & Hp & Hk & Hc).
  assert (Hlt : k < length (pools w)) by (eapply lookup_lt_Some; eauto).
  exists k, (close ps). split; [assumption|]. split; [|reflexivity].
  unfold Close, bind, call, log_Printf, world_after; simpl.
  unfold PoolClose, ModuleClose. rewrite Hp. simpl. rewrite Hk. simpl.
  destruct (wapcModule wg) as [m|]; simpl;
    [destruct (modules w !! m) as [ms|]; simpl|];
    apply list_lookup_insert_eq; assumption.
Qed.

Lemma reachable_keeps_closed (wg : WasmGuest) (s s1 : System) :
  rtc (step wg) s s1 ->
  closed_at (wapcPool wg) s.1 -> closed_at (wapcPool wg) s1.1.
Proof.
  induction 1 as [|s s1 s2 Hstep _ IH]; [auto|].
  intros Hs. apply IH.
  destruct Hstep as [w ts n t t1 w1 Hn Ht|w ts operation payload|w ts]; simpl in *.
  - eapply thread_step_keeps_closed; eassumption.
  - assumption.
  - apply Close_keeps_closed. assumption.
Qed.

(** C7. After a [Close] that has completed, and after whatever the callers
    then do (callers still in flight finishing, new callers arriving, further
    calls of [Close], in any interleaving), a call of [InvokeWasmOperation]
    returns, without panic and without waiting for a release, a nil result and
    [ClosedError]; it calls nothing but the acquisition and leaves the world
    as it found it. *)
Theorem InvokeWasmOperation_after_Close
    (wg : WasmGuest) (w w1 : SWorld) (ts ts1 : list Thread)
    (operation : string) (payload : bytes) :
  outcome (Close wg w) = Done tt ->
  rtc (step wg) (world_after (Close wg w), ts) (w1, ts1) ->
  InvokeWasmOperation wg operation payload w1 =
    (Done (None, Some ClosedError), w1,
     [EvLog "[host] Getting waPC Instance";
      EvGet (wapcPool wg) 10000000%Z;
      EvLog "[host] error getting waPC instance: pool closed"]).
Proof.
  intros Hclose Hreach.
  apply InvokeWasmOperation_on_closed.
  apply (reachable_keeps_closed wg _ _ Hreach). simpl.
  apply Close_closes_pool. assumption.
Qed.

End ClosedForGood.

(* ===================================================================== *)
(** * The bridge at work *)
(* ===================================================================== *)

Section AtWork.

Import SpecPool Concurrent Scenario.
#[local] Existing Instance SpecPool.host.

Lemma InvokeWasmOperation_returns_instance_once_witness :
  calls (events (InvokeWasmOperation bridge "echo" ping running)) =
    [EvGet (Some 0) 10000000%Z;
     EvInvoke (Some 0) TODO "echo" ping;
     EvReturn (Some 0) (Some 0)]
  /\ returned (events (InvokeWasmOperation bridge "echo" ping running)) =
       [(Some 0, Some 0)].
Proof.
  eapply (InvokeWasmOperation_returns_instance_once (H := host)
            bridge "echo" ping running).
  reflexivity.
Defined.

Lemma InvokeWasmOperation_acquisition_failure_witness :
  InvokeWasmOperation bridge "echo" ping exhausted =
    (Done (None, Some TimeoutError), exhausted,
     [EvLog "[host] Getting waPC Instance";
      EvGet (Some 0) 10000000%Z;
      EvLog "[host] error getting waPC instance: pool exhausted: timed out"]).
Proof.
  apply (InvokeWasmOperation_acquisition_failure (H := host)
           bridge "echo" ping exhausted exhausted None TimeoutError).
  reflexivity.
Defined.

Lemma NewWasmGuest_pool_of_ten_witness :
  pools_requested (events (NewWasmGuest (H := host) "chaincode.wasm" 0 (fresh 10))) =
    [(Some 0, 10%N)].
Proof.
  apply (NewWasmGuest_pool_of_ten (H := host) "chaincode.wasm" 0 (fresh 10) bridge).
  reflexivity.
Defined.

Lemma InvokeWasmOperation_after_Close_witness :
  InvokeWasmOperation bridge "echo" ping
      (world_after (Close bridge (world_after (Close bridge running)))) =
    (Done (None, Some ClosedError),
     world_after (Close bridge (world_after (Close bridge running))),
     [EvLog "[host] Getting waPC Instance";
      EvGet (Some 0) 10000000%Z;
      EvLog "[host] error getting waPC instance: pool closed"]).
Proof.
  eapply (InvokeWasmOperation_after_Close bridge running _ [] _ "echo" ping).
  - reflexivity.
  - eapply rtc_l; [apply (step_arrive _ _ _ "transfer" pong)|].
    eapply rtc_l; [eapply (step_thread _ _ _ 0); reflexivity|].
    eapply rtc_l; [apply step_close|].
    apply rtc_refl.
Defined.

Lemma callers_never_share_an_instance_witness :
  exclusive [Returning (Some 0) (Some ping, None) None;
             Holding (Some 1) "echo" ping;
             Calling "echo" pong].
Proof.
  eapply (callers_never_share_an_instance "chaincode.wasm" 0 (fresh 10) running).
  - reflexivity.
  - eapply rtc_l; [apply (step_arrive _ _ _ "echo" ping)|].
    eapply rtc_l; [apply (step_arrive _ _ _ "echo" ping)|].
    eapply rtc_l; [apply (step_arrive _ _ _ "echo" pong)|].
    eapply rtc_l; [eapply (step_thread _ _ _ 0); reflexivity|].
    eapply rtc_l; [eapply (step_thread _ _ _ 1); reflexivity|].
    eapply rtc_l; [eapply (step_thread _ _ _ 0); reflexivity|].
    apply rtc_refl.
Defined.

(** C5, as stated, fails: the pool of a constructed bridge has capacity 10,
    whatever capacity (2, say) its caller has in mind. *)
Lemma capacity_is_not_the_callers_choice :
  ~ (forall c : nat, 1 <= c ->
       constructed_capacity (NewWasmGuest (H := host) "chaincode.wasm" 0 (fresh 10))
       = Some c).
Proof.
  intros Hall. specialize (Hall 2 ltac:(lia)). vm_compute in Hall. discriminate.
Qed.

(** C3 at work: the guest does not know [transfer]; the execution fails with
    an error that names the operation, the error is logged, the instance goes
    back to the pool, and the caller gets a nil result and a nil error. *)
Theorem unknown_operation_error_is_lost :
  (Instance_Invoke (Some 0) TODO "transfer" ping running).1 =
    Done (None, Some (InvocationError "transfer"))
  /\ outcome (InvokeWasmOperation bridge "transfer" ping running) = Done (None, None)
  /\ logged (events (InvokeWasmOperation bridge "transfer" ping running)) =
      ["[host] Getting waPC Instance";
       "[host] Invoking operation transfer";
       "[host] error invoking transaction: invocation of transfer failed";
       "[host] Returning waPC Instance"].
Proof. repeat split; reflexivity. Qed.

(** C4 at work: the bytecode compiles, the engine grants three instances,
    the pool of ten cannot be built.  The construction fails with the pool's
    error and a nil bridge, no pool is retained, and the compiled module stays
    in the engine's heap, open, with no handle left to close it by. *)
Theorem failed_pool_construction_leaves_module :
  outcome (NewWasmGuest (H := host) "chaincode.wasm" 0 (fresh 3)) =
    Done (None, Some PoolInitError)
  /\ pools (world_after (NewWasmGuest (H := host) "chaincode.wasm" 0 (fresh 3))) = []
  /\ modules (world_after (NewWasmGuest (H := host) "chaincode.wasm" 0 (fresh 3))) =
       [{| bytecode := chaincode; callback := 0;
           sinks := {| Logger := PrintlnLogger; Stdout := os_Stdout;
                       Stderr := os_Stderr |};
           module_closed := false |}]
  /\ modules_closed (events (NewWasmGuest (H := host) "chaincode.wasm" 0 (fresh 3))) = [].
Proof. repeat split; reflexivity. Qed.

(** The earlier stages leave nothing behind when they fail. *)
Example malformed_bytecode :
  NewWasmGuest (H := host) "broken.wasm" 0 (fresh 10) =
    (Done (None, Some LoadError), fresh 10,
     [EvReadFile "broken.wasm";
      EvEngineNew tt (WithCancel Background) 0 (Some [x00; x00])
        {| Logger := PrintlnLogger; Stdout := os_Stdout; Stderr := os_Stderr |}]).
Proof. reflexivity. Qed.

Example missing_file :
  NewWasmGuest (H := host) "absent.wasm" 0 (fresh 10) =
    (Done (None, Some (StorageError "absent.wasm")), fresh 10,
     [EvReadFile "absent.wasm"]).
Proof. reflexivity. Qed.

(** [Close] on the running bridge: the ten instances are torn down, then
    the module is closed. *)
Example Close_runs :
  Close bridge running =
    (Done tt,
     {| files := files running; accepts := has_magic; guest := echo; budget := 0;
        modules := [{| bytecode := chaincode; callback := 0;
                       sinks := {| Logger := PrintlnLogger; Stdout := os_Stdout;
                                   Stderr := os_Stderr |};
                       module_closed := true |}];
        pools := [{| capacity := 10; derived_from := 0; available := [];
                     checked_out := []; closed := true;
                     torn_down := seq 0 10 |}] |},
     [EvLog "[host] Closing waPC Pool";
      EvPoolClose (Some 0) Background;
      EvLog "[host] Closing waPC Module";
      EvModuleClose (Some 0) (WithCancel Background)]).
Proof. reflexivity. Qed.

End AtWork.

Section AtWorkScripted.

Import Scenario.
#[local] Existing Instance Scripted.host.

Lemma InvokeWasmOperation_result_and_return_error_witness :
  outcome (InvokeWasmOperation scripted_bridge "echo" ping refusing_pool) =
    Done (Some pong, Some "cannot return instance to full pool").
Proof.
  eapply (InvokeWasmOperation_result_and_return_error (H := Scripted.host)
            scripted_bridge "echo" ping refusing_pool);
    reflexivity.
Defined.

(** C2 at work: the pool refuses the instance on its return.  A guest
    result then reaches the caller together with the pool's error; a guest
    error is replaced by the pool's error. *)
Theorem return_failure_changes_outcome :
  outcome (InvokeWasmOperation scripted_bridge "echo" ping refusing_pool) =
    Done (Some pong, Some "cannot return instance to full pool")
  /\ outcome (InvokeWasmOperation scripted_bridge "transfer" ping
                failing_guest_refusing_pool) =
       Done (None, Some "cannot return instance to full pool").
Proof. split; reflexivity. Qed.

(** A guest that panics: the instance is returned all the same, and the
    panic goes on to the caller. *)
Example panicking_guest_returns_instance :
  InvokeWasmOperation scripted_bridge "echo" ping panicking_guest =
    (Panicked "wasm error: unreachable", panicking_guest,
     [EvLog "[host] Getting waPC Instance";
      EvGet 1 10000000%Z;
      EvLog "[host] Invoking operation echo";
      EvInvoke 7 TODO "echo" ping;
      EvLog "[host] Returning waPC Instance";
      EvReturn 1 7]).
Proof. reflexivity. Qed.

End AtWorkScripted.

(* ===================================================================== *)
(** * More of what the bridge does, for any collaborators *)
(* ===================================================================== *)

Section Construction.

Context {H : WapcHost}.

Ltac run :=
  unfold InvokeWasmOperation, NewWasmGuest, Close, with_defer, return_instance,
         bind, call, log_Printf, ret, outcome, world_after, events; simpl.

(** X1. A file that cannot be read ends the construction at once: the
    caller gets a nil bridge and the read's own error, and neither the engine
    nor the pool library has been called. *)
Theorem NewWasmGuest_read_failure
    (wasmFile : string) (proxy : FabricProxy) (w w1 : World)
    (code : GoBytes) (e : Err) :
  ioutil_ReadFile wasmFile w = (Done (code, Some e), w1) ->
  NewWasmGuest wasmFile proxy w =
    (Done (None, Some e), w1, [EvReadFile wasmFile]).
Proof. intros Hread. run. rewrite Hread. reflexivity. Qed.

(** X2. A bytecode the engine refuses ends the construction there: the
    engine was given exactly the bytes read from the file, the proxy's
    callback and the standard sinks; the caller gets a nil bridge and the
    engine's own error; no pool has been asked for. *)
Theorem NewWasmGuest_compile_failure
    (wasmFile : string) (proxy : FabricProxy) (w w1 w2 : World)
    (code : GoBytes) (m : Module) (e : Err) :
  ioutil_ReadFile wasmFile w = (Done (code, None), w1) ->
  Engine_New wazero_Engine (WithCancel Background) (FabricCall proxy) code
    {| Logger := PrintlnLogger; Stdout := os_Stdout; Stderr := os_Stderr |} w1
    = (Done (m, Some e), w2) ->
  NewWasmGuest wasmFile proxy w =
    (Done (None, Some e), w2,
     [EvReadFile wasmFile;
      EvEngineNew wazero_Engine (WithCancel Background) (FabricCall proxy) code
        {| Logger := PrintlnLogger; Stdout := os_Stdout; Stderr := os_Stderr |}]).
Proof. intros Hread Hnew. run. rewrite Hread. simpl. rewrite Hnew. reflexivity. Qed.

(** X3. A pool that cannot be built ends the construction with a nil bridge
    and the pool library's own error.  The module was compiled by then, and
    the run ends without a call that closes it: the world is as the failed
    pool construction left it. *)
Theorem NewWasmGuest_pool_failure
    (wasmFile : string) (proxy : FabricProxy) (w w1 w2 w3 : World)
    (code : GoBytes) (m : Module) (p : Pool) (e : Err) :
  ioutil_ReadFile wasmFile w = (Done (code, None), w1) ->
  Engine_New wazero_Engine (WithCancel Background) (FabricCall proxy) code
    {| Logger := PrintlnLogger; Stdout := os_Stdout; Stderr := os_Stderr |} w1
    = (Done (m, None), w2) ->
  wapc_NewPool Background m 10 w2 = (Done (p, Some e), w3) ->
  NewWasmGuest wasmFile proxy w =
    (Done (None, Some e), w3,
     [EvReadFile wasmFile;
      EvEngineNew wazero_Engine (WithCancel Background) (FabricCall proxy) code
        {| Logger := PrintlnLogger; Stdout := os_Stdout; Stderr := os_Stderr |};
      EvNewPool Background m 10]).
Proof.
  intros Hread Hnew Hpool. run. rewrite Hread. simpl. rewrite Hnew. simpl.
  rewrite Hpool. reflexivity.
Qed.

(** X4. The bridge a construction returns holds exactly what its stages
    produced: the module the engine compiled from the bytes of the named file
    under the cancellable context the bridge keeps, the pool built from that
    module, the wazero engine; and the world is as the pool construction left
    it. *)
Theorem NewWasmGuest_bridge_holds_what_was_built
    (wasmFile : string) (proxy : FabricProxy) (w : World) (wg : WasmGuest) :
  outcome (NewWasmGuest wasmFile proxy w) = Done (Some wg, None) ->
  exists (code : GoBytes) (w1 w2 : World),
    ioutil_ReadFile wasmFile w = (Done (code, None), w1)
    /\ Engine_New (wapcEngine wg) (context wg) (FabricCall proxy) code
         {| Logger := PrintlnLogger; Stdout := os_Stdout; Stderr := os_Stderr |} w1
       = (Done (wapcModule wg, None), w2)
    /\ wapc_NewPool Background (wapcModule wg) 10 w2
       = (Done (wapcPool wg, None), world_after (NewWasmGuest wasmFile proxy w))
    /\ wapcEngine wg = wazero_Engine
    /\ context wg = WithCancel Background.
Proof.
  run.
  destruct (ioutil_ReadFile wasmFile w) as [[[code [e|]]|v] w1]; simpl; try discriminate.
  destruct (Engine_New _ _ _ code _ w1) as [[[m [e|]]|v] w2] eqn:Hnew;
    simpl; try discriminate.
  destruct (wapc_NewPool Background m 10 w2) as [[[p [e|]]|v] w3] eqn:Hpool;
    simpl; try discriminate.
  intros [= <-]. simpl. exists code, w1, w2. auto.
Qed.

(** X5. A construction that returns hands back either a bridge and no
    error, or an error and no bridge: never both, never neither. *)
Theorem NewWasmGuest_bridge_or_error
    (wasmFile : string) (proxy : FabricProxy) (w : World)
    (b : option WasmGuest) (err : GoError) :
  outcome (NewWasmGuest wasmFile proxy w) = Done (b, err) ->
  (is_Some b /\ err = None) \/ (b = None /\ is_Some err).
Proof.
  run.
  destruct (ioutil_ReadFile wasmFile w) as [[[code [e|]]|v] w1]; simpl;
    [intros [= <- <-]; right; eauto| |discriminate].
  destruct (Engine_New _ _ _ code _ w1) as [[[m [e|]]|v] w2]; simpl;
    [intros [= <- <-]; right; eauto| |discriminate].
  destruct (wapc_NewPool Background m 10 w2) as [[[p [e|]]|v] w3]; simpl;
    [intros [= <- <-]; right; eauto| |discriminate].
  intros [= <- <-]. left. eauto.
Qed.

End Construction.

Section Invocation.

Context {H : WapcHost}.

Ltac run :=
  unfold InvokeWasmOperation, NewWasmGuest, Close, with_defer, return_instance,
         bind, call, log_Printf, ret, outcome, world_after, events; simpl.

(** X6. When acquisition, guest execution and return all succeed, the caller
    gets the guest's bytes as they are and a nil error; the guest was asked
    with the caller's operation and payload; the world went through the three
    calls in order; three lines were logged. *)
Theorem InvokeWasmOperation_success
    (wg : WasmGuest) (operation : string) (payload : bytes)
    (w w1 w2 w3 : World) (i : Instance) (result : GoBytes) :
  Pool_Get (wapcPool wg) (10 * Millisecond)%Z w = (Done (i, None), w1) ->
  Instance_Invoke i TODO operation payload w1 = (Done (result, None), w2) ->
  Pool_Return (wapcPool wg) i w2 = (Done None, w3) ->
  InvokeWasmOperation wg operation payload w =
    (Done (result, None), w3,
     [EvLog "[host] Getting waPC Instance";
      EvGet (wapcPool wg) (10 * Millisecond)%Z;
      EvLog ("[host] Invoking operation " +:+ operation);
      EvInvoke i TODO operation payload;
      EvLog "[host] Returning waPC Instance";
      EvReturn (wapcPool wg) i]).
Proof.
  intros Hget Hinv Hret. run. rewrite Hget. simpl. rewrite Hinv. simpl.
  rewrite Hret. reflexivity.
Qed.

(** X7. When the guest execution fails, what the caller gets as error is
    the pool's answer to the return of the instance, whatever it is, and not
    the guest's error; the result is nil even if the guest handed bytes back
    with its error. *)
Theorem InvokeWasmOperation_guest_error_replaced
    (wg : WasmGuest) (operation : string) (payload : bytes)
    (w w1 w2 w3 : World) (i : Instance) (result : GoBytes) (e : Err)
    (err' : GoError) :
  Pool_Get (wapcPool wg) (10 * Millisecond)%Z w = (Done (i, None), w1) ->
  Instance_Invoke i TODO operation payload w1 = (Done (result, Some e), w2) ->
  Pool_Return (wapcPool wg) i w2 = (Done err', w3) ->
  outcome (InvokeWasmOperation wg operation payload w) = Done (None, err').
Proof.
  intros Hget Hinv Hret.
  destruct (InvokeWasmOperation_outcome wg operation payload w w1 w2 w3 i
              result (Some e) err' Hget Hinv Hret) as [Ho _].
  exact Ho.
Qed.

(** X8. Every error a collaborator returns during an invocation is written
    to the log with its text: the guest's error after the line that announces
    the operation, the pool's refusal after the line that announces the
    return. *)
Theorem InvokeWasmOperation_logs_errors
    (wg : WasmGuest) (operation : string) (payload : bytes)
    (w w1 w2 w3 : World) (i : Instance) (result : GoBytes) (err err' : GoError) :
  Pool_Get (wapcPool wg) (10 * Millisecond)%Z w = (Done (i, None), w1) ->
  Instance_Invoke i TODO operation payload w1 = (Done (result, err), w2) ->
  Pool_Return (wapcPool wg) i w2 = (Done err', w3) ->
  logged (events (InvokeWasmOperation wg operation payload w)) =
    ["[host] Getting waPC Instance";
     "[host] Invoking operation " +:+ operation]
    ++ match err with
       | Some e => ["[host] error invoking transaction: " +:+ error_string e]
       | None => []
       end
    ++ ["[host] Returning waPC Instance"]
    ++ match err' with
       | Some e' => ["[host] error returning waPC instance: " +:+ error_string e']
       | None => []
       end.
Proof.
  intros Hget Hinv Hret. run. rewrite Hget. simpl. rewrite Hinv.
  destruct err as [e|]; simpl; rewrite Hret; destruct err' as [e'|]; reflexivity.
Qed.

(** X9. A guest execution that panics does not keep the instance: the
    deferred block returns it, and then the panic goes on to the caller (the
    bridge does not recover it), whatever the pool answered to the return. *)
Theorem InvokeWasmOperation_guest_panic
    (wg : WasmGuest) (operation : string) (payload : bytes)
    (w w1 w2 w3 : World) (i : Instance) (v : string) (err' : GoError) :
  Pool_Get (wapcPool wg) (10 * Millisecond)%Z w = (Done (i, None), w1) ->
  Instance_Invoke i TODO operation payload w1 = (Panicked v, w2) ->
  Pool_Return (wapcPool wg) i w2 = (Done err', w3) ->
  outcome (InvokeWasmOperation wg operation payload w) = Panicked v
  /\ world_after (InvokeWasmOperation wg operation payload w) = w3
  /\ returned (events (InvokeWasmOperation wg operation payload w)) =
       [(wapcPool wg, i)].
Proof.
  intros Hget Hinv Hret. run. rewrite Hget. simpl. rewrite Hinv. simpl.
  rewrite Hret. destruct err' as [e'|]; simpl; auto.
Qed.

(** X10. A return that panics ends the invocation with that panic, however
    the guest execution had ended: a result the guest produced is lost, and a
    panic of the guest is replaced by the pool's. *)
Theorem InvokeWasmOperation_return_panic
    (wg : WasmGuest) (operation : string) (payload : bytes)
    (w w1 w2 w3 : World) (i : Instance)
    (guest_end : Outcome (GoBytes * GoError)) (v' : string) :
  Pool_Get (wapcPool wg) (10 * Millisecond)%Z w = (Done (i, None), w1) ->
  Instance_Invoke i TODO operation payload w1 = (guest_end, w2) ->
  Pool_Return (wapcPool wg) i w2 = (Panicked v', w3) ->
  outcome (InvokeWasmOperation wg operation payload w) = Panicked v'
  /\ world_after (InvokeWasmOperation wg operation payload w) = w3.
Proof.
  intros Hget Hinv Hret. run. rewrite Hget. simpl. rewrite Hinv.
  destruct guest_end as [[r [e|]]|v]; simpl; rewrite Hret; simpl; auto.
Qed.

(** X11. On every run, whatever the collaborators do (return, fail or
    panic): either no guest execution was started and nothing was returned to
    the pool, or one guest execution was started, with the caller's operation
    and payload, and the instance it ran on was returned once to the bridge's
    pool.  No instance is returned that was not acquired and run. *)
Theorem InvokeWasmOperation_executions_pair_with_returns
    (wg : WasmGuest) (operation : string) (payload : bytes) (w : World) :
  (invoked (events (InvokeWasmOperation wg operation payload w)) = []
   /\ returned (events (InvokeWasmOperation wg operation payload w)) = [])
  \/ (exists i : Instance,
        invoked (events (InvokeWasmOperation wg operation payload w)) =
          [(i, operation, payload)]
        /\ returned (events (InvokeWasmOperation wg operation payload w)) =
             [(wapcPool wg, i)]).
Proof.
  run.
  destruct (Pool_Get (wapcPool wg) (10 * Millisecond)%Z w) as [[[i [e|]]|v] w1];
    simpl; auto.
  right. exists i.
  destruct (Instance_Invoke i TODO operation payload w1) as [[[r [e|]]|v] w2];
    simpl;
    destruct (Pool_Return (wapcPool wg) i w2) as [[[e'|]|v'] w3]; simpl; auto.
Qed.

(** X12. An invocation touches nothing but its pool and its instance: it
    reads no file, compiles nothing, builds no pool and closes neither pool
    nor module, on any run. *)
Theorem InvokeWasmOperation_only_get_invoke_return
    (wg : WasmGuest) (operation : string) (payload : bytes) (w : World) :
  Forall (fun e => match e with
                   | EvGet _ _ | EvInvoke _ _ _ _ | EvReturn _ _ => True
                   | _ => False
                   end)
         (calls (events (InvokeWasmOperation wg operation payload w))).
Proof.
  run.
  destruct (Pool_Get (wapcPool wg) (10 * Millisecond)%Z w) as [[[i [e|]]|v] w1];
    simpl; auto.
  destruct (Instance_Invoke i TODO operation payload w1) as [[[r [e|]]|v] w2];
    simpl;
    destruct (Pool_Return (wapcPool wg) i w2) as [[[e'|]|v'] w3]; simpl;
    repeat constructor.
Qed.

End Invocation.

Section Closing.

Context {H : WapcHost}.

Ltac run :=
  unfold InvokeWasmOperation, NewWasmGuest, Close, with_defer, return_instance,
         bind, call, log_Printf, ret, outcome, world_after, events; simpl.

(** X13. A pool whose close panics takes [Close] down with it: the panic
    goes on to the caller, the module is not closed, and the line that
    announces the module's close is not logged. *)
Theorem Close_pool_panic (wg : WasmGuest) (w w1 : World) (v : string) :
  Pool_Close (wapcPool wg) Background w = (Panicked v, w1) ->
  Close wg w =
    (Panicked v, w1,
     [EvLog "[host] Closing waPC Pool"; EvPoolClose (wapcPool wg) Background]).
Proof. intros Hclose. run. rewrite Hclose. reflexivity. Qed.

(** X14. When the pool's close comes back, [Close] ends the way the
    module's close ends (returning, or panicking with its panic), in the world
    the module's close leaves, which it entered from the world the pool's
    close left. *)
Theorem Close_ends_as_module_close
    (wg : WasmGuest) (w w1 w2 : World) (module_end : Outcome unit) :
  Pool_Close (wapcPool wg) Background w = (Done tt, w1) ->
  Module_Close (wapcModule wg) (context wg) w1 = (module_end, w2) ->
  Close wg w =
    (module_end, w2,
     [EvLog "[host] Closing waPC Pool";
      EvPoolClose (wapcPool wg) Background;
      EvLog "[host] Closing waPC Module";
      EvModuleClose (wapcModule wg) (context wg)]).
Proof.
  intros Hpool Hmod. run. rewrite Hpool. simpl. rewrite Hmod.
  destruct module_end as [[]|v]; reflexivity.
Qed.

(** X15. The bridge keeps no record of having been closed: a second [Close]
    calls the pool's close and the module's close again, with the same
    handles and contexts as the first. *)
Theorem Close_again_closes_again (wg : WasmGuest) (w : World) :
  outcome (Close wg w) = Done tt ->
  outcome (Close wg (world_after (Close wg w))) = Done tt ->
  calls (events (Close wg (world_after (Close wg w)))) =
    calls (events (Close wg w))
  /\ calls (events (Close wg w)) =
       [EvPoolClose (wapcPool wg) Background;
        EvModuleClose (wapcModule wg) (context wg)].
Proof.
  run.
  destruct (Pool_Close (wapcPool wg) Background w) as [[[]|v] w1]; simpl;
    [|discriminate].
  destruct (Module_Close (wapcModule wg) (context wg) w1) as [[[]|v] w2]; simpl;
    [|discriminate].
  intros _.
  destruct (Pool_Close (wapcPool wg) Background w2) as [[[]|v] w3]; simpl;
    [|discriminate].
  destruct (Module_Close (wapcModule wg) (context wg) w3) as [[[]|v] w4]; simpl;
    [|discriminate].
  auto.
Qed.

End Closing.

(* ===================================================================== *)
(** * More of the bridge at work *)
(* ===================================================================== *)

Section MoreAtWork.

Import SpecPool Scenario.
#[local] Existing Instance SpecPool.host.

Lemma NewWasmGuest_read_failure_witness :
  NewWasmGuest (H := host) "absent.wasm" 0 (fresh 10) =
    (Done (None, Some (StorageError "absent.wasm")), fresh 10,
     [EvReadFile "absent.wasm"]).
Proof.
  apply (NewWasmGuest_read_failure (H := host) "absent.wasm" 0
           (fresh 10) (fresh 10) None (StorageError "absent.wasm")).
  reflexivity.
Defined.

Lemma NewWasmGuest_compile_failure_witness :
  NewWasmGuest (H := host) "broken.wasm" 0 (fresh 10) =
    (Done (None, Some LoadError), fresh 10,
     [EvReadFile "broken.wasm";
      EvEngineNew tt (WithCancel Background) 0 (Some [x00; x00])
        {| Logger := PrintlnLogger; Stdout := os_Stdout; Stderr := os_Stderr |}]).
Proof.
  apply (NewWasmGuest_compile_failure (H := host) "broken.wasm" 0
           (fresh 10) (fresh 10) (fresh 10) (Some [x00; x00]) None LoadError);
    reflexivity.
Defined.

Lemma NewWasmGuest_pool_failure_witness :
  NewWasmGuest (H := host) "chaincode.wasm" 0 (fresh 3) =
    (Done (None, Some PoolInitError),
     with_modules
       [{| bytecode := chaincode; callback := 0;
           sinks := {| Logger := PrintlnLogger; Stdout := os_Stdout;
                       Stderr := os_Stderr |};
           module_closed := false |}] (fresh 3),
     [EvReadFile "chaincode.wasm";
      EvEngineNew tt (WithCancel Background) 0 (Some chaincode)
        {| Logger := PrintlnLogger; Stdout := os_Stdout; Stderr := os_Stderr |};
      EvNewPool Background (Some 0) 10]).
Proof.
  eapply (NewWasmGuest_pool_failure (H := host) "chaincode.wasm" 0
            (fresh 3) (fresh 3) _ _ (Some chaincode) (Some 0) None PoolInitError);
    reflexivity.
Defined.

Lemma NewWasmGuest_bridge_holds_what_was_built_witness :
  exists (code : GoBytes) (w1 w2 : SWorld),
    ReadFile "chaincode.wasm" (fresh 10) = (Done (code, None), w1)
    /\ EngineNew tt (WithCancel Background) 0 code
         {| Logger := PrintlnLogger; Stdout := os_Stdout; Stderr := os_Stderr |} w1
       = (Done (Some 0, None), w2)
    /\ NewPool Background (Some 0) 10 w2 = (Done (Some 0, None), running)
    /\ tt = tt
    /\ WithCancel Background = WithCancel Background.
Proof.
  apply (NewWasmGuest_bridge_holds_what_was_built (H := host)
           "chaincode.wasm" 0 (fresh 10) bridge).
  reflexivity.
Defined.

Lemma NewWasmGuest_bridge_or_error_witness :
  (is_Some (Some bridge) /\ (None : option PoolErr) = None)
  \/ (Some bridge = None /\ is_Some (None : option PoolErr)).
Proof.
  apply (NewWasmGuest_bridge_or_error (H := host) "chaincode.wasm" 0 (fresh 10)
           (Some bridge) None).
  reflexivity.
Defined.

Lemma InvokeWasmOperation_success_witness :
  InvokeWasmOperation bridge "echo" ping running =
    (Done (Some ping, None),
     with_pools 0
       [{| capacity := 10; derived_from := 0;
           available := [1; 2; 3; 4; 5; 6; 7; 8; 9; 0]; checked_out := [];
           closed := false; torn_down := [] |}] running,
     [EvLog "[host] Getting waPC Instance";
      EvGet (Some 0) 10000000%Z;
      EvLog "[host] Invoking operation echo";
      EvInvoke (Some 0) TODO "echo" ping;
      EvLog "[host] Returning waPC Instance";
      EvReturn (Some 0) (Some 0)]).
Proof.
  eapply (InvokeWasmOperation_success (H := host) bridge "echo" ping running);
    reflexivity.
Defined.

Lemma Close_ends_as_module_close_witness :
  Close bridge running =
    (Done tt, world_after (Close bridge running),
     [EvLog "[host] Closing waPC Pool";
      EvPoolClose (Some 0) Background;
      EvLog "[host] Closing waPC Module";
      EvModuleClose (Some 0) (WithCancel Background)]).
Proof.
  eapply (Close_ends_as_module_close (H := host) bridge running);
    reflexivity.
Defined.

Lemma Close_again_closes_again_witness :
  calls (events (Close bridge (world_after (Close bridge running)))) =
    calls (events (Close bridge running))
  /\ calls (events (Close bridge running)) =
       [EvPoolClose (Some 0) Background;
        EvModuleClose (Some 0) (WithCancel Background)].
Proof.
  apply (Close_again_closes_again (H := host) bridge running); reflexivity.
Defined.

End MoreAtWork.

Section MoreAtWorkScripted.

Import Scenario.
#[local] Existing Instance Scripted.host.

Lemma InvokeWasmOperation_guest_error_replaced_witness :
  outcome (InvokeWasmOperation scripted_bridge "transfer" ping
             failing_guest_refusing_pool) =
    Done (None, Some "cannot return instance to full pool").
Proof.
  eapply (InvokeWasmOperation_guest_error_replaced (H := Scripted.host)
            scripted_bridge "transfer" ping failing_guest_refusing_pool);
    reflexivity.
Defined.

Lemma InvokeWasmOperation_logs_errors_witness :
  logged (events (InvokeWasmOperation scripted_bridge "transfer" ping
                    failing_guest_refusing_pool)) =
    ["[host] Getting waPC Instance";
     "[host] Invoking operation transfer";
     "[host] error invoking transaction: call to transfer was unsuccessful";
     "[host] Returning waPC Instance";
     "[host] error returning waPC instance: cannot return instance to full pool"].
Proof.
  apply (InvokeWasmOperation_logs_errors (H := Scripted.host)
           scripted_bridge "transfer" ping
           failing_guest_refusing_pool failing_guest_refusing_pool
           failing_guest_refusing_pool failing_guest_refusing_pool
           7 None (Some "call to transfer was unsuccessful")
           (Some "cannot return instance to full pool"));
    reflexivity.
Defined.

Lemma InvokeWasmOperation_guest_panic_witness :
  outcome (InvokeWasmOperation scripted_bridge "echo" ping panicking_guest) =
    Panicked "wasm error: unreachable"
  /\ world_after (InvokeWasmOperation scripted_bridge "echo" ping panicking_guest) =
       panicking_guest
  /\ returned (events (InvokeWasmOperation scripted_bridge "echo" ping
                         panicking_guest)) = [(1, 7)].
Proof.
  eapply (InvokeWasmOperation_guest_panic (H := Scripted.host)
            scripted_bridge "echo" ping panicking_guest);
    reflexivity.
Defined.

End MoreAtWorkScripted.

Section MoreAtWorkFaulty.

Import Scenario.
#[local] Existing Instance Faulty.host.

Lemma InvokeWasmOperation_return_panic_witness :
  outcome (InvokeWasmOperation Faulty.bridge "echo" ping Faulty.panicking_return) =
    Panicked "send on closed channel"
  /\ world_after (InvokeWasmOperation Faulty.bridge "echo" ping
                    Faulty.panicking_return) = Faulty.panicking_return.
Proof.
  eapply (InvokeWasmOperation_return_panic (H := Faulty.host)
            Faulty.bridge "echo" ping Faulty.panicking_return);
    reflexivity.
Defined.

Lemma Close_pool_panic_witness :
  Close Faulty.bridge Faulty.panicking_pool_close =
    (Panicked "close of closed channel", Faulty.panicking_pool_close,
     [EvLog "[host] Closing waPC Pool"; EvPoolClose 1 Background]).
Proof.
  apply (Close_pool_panic (H := Faulty.host) Faulty.bridge
           Faulty.panicking_pool_close Faulty.panicking_pool_close
           "close of closed channel").
  reflexivity.
Defined.

End MoreAtWorkFaulty.
